(** * The manifest cache of david-www

    A shallow embedding of [getManifest] (the manifest module of the server):
    the per-(user, repo, ref) cache of parsed [package.json] documents, the
    coalescing of concurrent fetches through the [batch] helper, and the
    events raised when a refreshed manifest differs from the one it
    replaces.

    JavaScript objects that the module shares with its callers live in an
    explicit heap, so that handing out a reference and handing out a copy are
    different things.  The module runs on a single-threaded event loop: a call
    of [getManifest] and the completion of an upstream request are the two
    atomic steps, and everything a step does to the outside world (invoking a
    callback, emitting an event, issuing a request) is recorded, in order, in
    the list of actions the step returns.

    Callbacks and event listeners are the callers' code: an invocation is
    recorded, and what a caller does with the object it was handed is a turn
    of its own ([Mutate]).  The clock is read once per turn and does not go
    backwards from one turn to the next.

    Two things are outside the model, and the theorems that depend on them
    say so in their hypotheses: names that a plain object resolves through
    [Object.prototype] ([ownName], [ownNamesOnly]) and expiry dates outside
    the range of a [Date] ([validDate]).  Documents that the JSON round trip
    does not give back unchanged have no counterpart in [json]. *)

From Stdlib Require Import QArith.QArith_base.
From stdpp Require Import gmap strings list fin_maps.

Local Open Scope Z_scope.

(** ** JSON documents *)

(** What [JSON.parse] produces.  Numbers are the finite doubles, which are
    rationals; object fields keep their insertion order. *)
#[warnings="-register-all"]
Inductive json : Type :=
| JNull
| JBool (b : bool)
| JNum (q : Q)
| JStr (s : string)
| JArr (items : list json)
| JObj (fields : list (string * json)).

(** JavaScript truthiness, the test behind [!data]. *)
Definition truthy (v : json) : bool :=
  match v with
  | JNull => false
  | JBool b => b
  | JNum q => negb (Qnum q =? 0)
  | JStr s => negb (String.eqb s EmptyString)
  | JArr _ => true
  | JObj _ => true
  end.

Fixpoint assoc (k : string) (fields : list (string * json)) : option json :=
  match fields with
  | [] => None
  | (k', v) :: rest => if String.eqb k k' then Some v else assoc k rest
  end.

Fixpoint assign (k : string) (v : json) (fields : list (string * json))
  : list (string * json) :=
  match fields with
  | [] => [(k, v)]
  | (k', v') :: rest =>
      if String.eqb k k' then (k, v) :: rest else (k', v') :: assign k v rest
  end.

(** [v.k]: a property read; [None] is [undefined].  The only names read by the
    module are the four dependency sections, which no array, string, number or
    boolean has. *)
Definition getProp (v : json) (k : string) : option json :=
  match v with
  | JObj fields => assoc k fields
  | _ => None
  end.

(** [v.k = x].  The module is sloppy-mode code: the assignment is silently
    dropped on a primitive, and on an array it adds a named property that is
    no part of the array's JSON content. *)
Definition setProp (v : json) (k : string) (x : json) : json :=
  match v with
  | JObj fields => JObj (assign k x fields)
  | _ => v
  end.

(** ** The heap of shared objects *)

Definition loc := nat.
Bind Scope nat_scope with loc.

Definition deref (h : list json) (l : loc) : json := default JNull (h !! l).

Definition alloc (h : list json) (v : json) : list json * loc :=
  (h ++ [v], length h).

(** [JSON.parse(JSON.stringify(x))]: the same document at a new address.  The
    documents of [json] are those the round trip gives back unchanged; a
    number that overflows to [Infinity], which it would turn into [null], is
    none of them. *)
Definition deepCopy (h : list json) (l : loc) : list json * loc :=
  alloc h (deref h l).

(** What a caller can do with a reference it was handed: [obj.k = v]. *)
Definition mutate (h : list json) (l : loc) (k : string) (v : json) : list json :=
  <[l := setProp (deref h l) k v]> h.

(** ** Data of the module *)

Definition callback := nat.
Bind Scope nat_scope with callback.

(** [function Manifest (data, priv)]; [expires] in milliseconds since the
    epoch, a valid date ([validDate] below). *)
Record Manifest := mkManifest {
  data : loc;
  private : bool;
  expires : Z
}.

(** The error handed to a callback, tagged with the place that raised it:
    [er] of the request, [new Error("Failed to parse package.json: " + body)],
    or [er] of [onGetRepo]. *)
Inductive error :=
| RequestError (er : string)
| ParseError (message : string)
| RepoError (er : string).

(** The arguments of a callback: [cb(er)] or [cb(null, data)]. *)
Inductive outcome :=
| Failure (er : error)
| Success (d : loc).

(** [config.stash], the configuration the request URL is built from. *)
Record StashConfig := mkStash {
  protocol : string;
  user_name : string;
  user_password : string;
  host : string
}.

(** The closure handed to [request]: the variables of the enclosing call of
    [getManifest] that the completion handler reads, [manifest] being the
    entry read at call time. *)
Record Request := mkRequest {
  rq_id : nat;
  rq_url : string;
  rq_user : string;
  rq_repo : string;
  rq_ref : option string;
  rq_batchKey : string;
  rq_manifest : option Manifest
}.

(** Module state: [manifests], the groups of [batch], the heap, [Manifest.TTL]
    and the requests that have not completed yet. *)
Record State := mkState {
  manifests : gmap string (gmap string (gmap string Manifest));
  batches : gmap string (list callback);
  heap : list json;
  TTL : Z;
  inflight : list Request;
  nextId : nat
}.

Definition initial : State :=
  mkState ∅ ∅ [] 3600000 [] 0.

(** ** The request coalescer *)

Module batch.

(** Modelled from the spec: the [./batch] module is required by the manifest
    module but is not among the sources.  A group is the ordered list of
    callbacks enqueued under a key; [push] creates the group if absent;
    [call] removes the group and invokes every enqueued callback, in enqueue
    order, through the invoker. *)
Definition exists_ (b : gmap string (list callback)) (key : string) : bool :=
  bool_decide (is_Some (b !! key)).

(** Modelled from the spec: [push(key, callback)] of the missing [./batch]. *)
Definition push (b : gmap string (list callback)) (key : string) (cb : callback)
  : gmap string (list callback) :=
  <[key := default [] (b !! key) ++ [cb]]> b.

(** Modelled from the spec: the callbacks waiting under a key of the missing
    [./batch], in enqueue order. *)
Definition waiters (b : gmap string (list callback)) (key : string) : list callback :=
  default [] (b !! key).

(** Modelled from the spec: [call(key, invoker)] of the missing [./batch];
    the invoker runs once per waiter and threads the state [S] it works on. *)
Definition call {S : Type} (b : gmap string (list callback)) (key : string)
    (fn : callback → S → S) (s : S) : gmap string (list callback) * S :=
  (delete key b, foldl (λ acc cb, fn cb acc) s (waiters b key)).

End batch.

(** ** Cache slots *)

(** [ref = ref || null]: an absent ref and the empty string both become
    [null]. *)
Definition normRef (ref : option string) : option string :=
  match ref with
  | Some s => if String.eqb s EmptyString then None else Some s
  | None => None
  end.

(** The property name [ref] is turned into by [manifests[user][repo][ref]]:
    [null] is coerced to the string ["null"]. *)
Definition refKey (ref : option string) : string :=
  match ref with
  | Some s => s
  | None => "null"
  end.

(** [manifests[user] && manifests[user][repo] ? manifests[user][repo][ref] : null],
    the objects being used as maps from names to what was stored under them:
    the read of the objects' own properties (see [prototypeNames] below for
    the names this leaves out). *)
Definition lookupManifest (ms : gmap string (gmap string (gmap string Manifest)))
    (user repo : string) (ref : option string) : option Manifest :=
  match ms !! user with
  | Some byRepo =>
      match byRepo !! repo with
      | Some byRef => byRef !! refKey ref
      | None => None
      end
  | None => None
  end.

(** [manifests[user] = manifests[user] || {}], the same for [repo], then
    [manifests[user][repo][ref] = manifest], on the objects' own properties
    (see [prototypeNames] below for the names this leaves out). *)
Definition storeManifest (ms : gmap string (gmap string (gmap string Manifest)))
    (user repo : string) (ref : option string) (m : Manifest)
  : gmap string (gmap string (gmap string Manifest)) :=
  let byRepo := default ∅ (ms !! user) in
  let byRef := default ∅ (byRepo !! repo) in
  <[user := <[repo := <[refKey ref := m]> byRef]> byRepo]> ms.

(** The slot a call with the given [ref] argument reads and writes. *)
Definition slotOf (ref : option string) : string := refKey (normRef ref).

(** [manifests] and the objects stored in it are plain objects: a read of a
    name they do not own goes on to [Object.prototype], and a write under
    [__proto__] reaches the prototype itself.  The maps of [lookupManifest]
    and [storeManifest] are the objects' own properties: they are what the
    code reads and writes for every name that is not a member of
    [Object.prototype], as long as nothing was stored under such a member.
    These are the members. *)
Definition prototypeNames : list string :=
  ["__proto__"; "constructor"; "hasOwnProperty"; "isPrototypeOf";
   "propertyIsEnumerable"; "toLocaleString"; "toString"; "valueOf";
   "__defineGetter__"; "__defineSetter__"; "__lookupGetter__"; "__lookupSetter__"].

(** The name is resolved by the object that owns it, or not at all. *)
Definition ownName (k : string) : bool :=
  negb (existsb (String.eqb k) prototypeNames).

(** Nothing is stored under a user, a repository or a ref named like a member
    of [Object.prototype]. *)
Definition ownNamesOnly (ms : gmap string (gmap string (gmap string Manifest))) : Prop :=
  ∀ user byRepo, ms !! user = Some byRepo →
    ownName user = true
    ∧ ∀ repo byRef, byRepo !! repo = Some byRef →
        ownName repo = true
        ∧ ∀ k m, byRef !! k = Some m → ownName k = true.

(** The range of a [Date], in milliseconds either side of the epoch; a moment
    outside it is invalid and compares as false. *)
Definition maxDate : Z := 8640000000000000.

Definition validDate (t : Z) : Prop := - maxDate ≤ t ≤ maxDate.

(** [[user, repo, authToken].join("-")]: an absent token joins as the empty
    string. *)
Definition batchKeyOf (user repo : string) (authToken : option string) : string :=
  user +:+ "-" +:+ repo +:+ "-" +:+ default EmptyString authToken.

(** [manifest.expires > new Date()] *)
Definition isFresh (now : Z) (m : Manifest) : bool := bool_decide (now < expires m).

(** [manifest && !manifest.private && manifest.expires > new Date()] *)
Definition servable (now : Z) (manifest : option Manifest) : option Manifest :=
  match manifest with
  | Some m => if negb (private m) && isFresh now m then Some m else None
  | None => None
  end.

(** The value stored by [data.ref = ref]. *)
Definition refValue (ref : option string) : json :=
  match ref with
  | Some s => JStr s
  | None => JNull
  end.

(** The four sections compared after a refresh; the event of a section is
    named after it. *)
Definition sections : list string :=
  ["dependencies"; "devDependencies"; "peerDependencies"; "optionalDependencies"].

Definition withHeap (s : State) (h : list json) : State :=
  mkState (manifests s) (batches s) h (TTL s) (inflight s) (nextId s).

Definition withBatches (s : State) (b : gmap string (list callback)) : State :=
  mkState (manifests s) b (heap s) (TTL s) (inflight s) (nextId s).

Definition withInflight (s : State) (rqs : list Request) : State :=
  mkState (manifests s) (batches s) (heap s) (TTL s) rqs (nextId s).

(** [exports.setCacheDuration], for a duration of fixed length (hours,
    minutes, seconds, milliseconds), given in milliseconds. *)
Definition setCacheDuration (duration : Z) (s : State) : State :=
  mkState (manifests s) (batches s) (heap s) duration (inflight s) (nextId s).

(** The request with the given id, and the requests that stay in flight. *)
Fixpoint takeRequest (id : nat) (rqs : list Request) : option (Request * list Request) :=
  match rqs with
  | [] => None
  | rq :: rest =>
      if Nat.eqb (rq_id rq) id then Some (rq, rest)
      else match takeRequest id rest with
           | Some (found, rest') => Some (found, rq :: rest')
           | None => None
           end
  end.

(** ** Stand-ins for the collaborators, for the worked examples *)

(** A parser that agrees with [JSON.parse] on the bodies the examples send
    and refuses every other body. *)
Definition sampleParse (body : string) : option json :=
  if String.eqb body "{}" then Some (JObj [])
  else if String.eqb body "[]" then Some (JArr [])
  else if String.eqb body "null" then Some JNull
  else None.

(** A differ that reports the two arguments it was applied to. *)
Definition probeDiff (a b : option json) : list (option json * option json) :=
  [(a, b)].

Definition sampleStash : StashConfig :=
  mkStash "https" "david" "secret" "stash.example.com".

Section Service.

(** The collaborators of the module: [JSON.parse] ([None] when it throws),
    the [dep-diff] library with the type of its difference records, and the
    [config.stash] settings. *)
Variable JSON_parse : string → option json.
Variable diff : Type.
Variable depDiff : option json → option json → list diff.
Variable stash : StashConfig.

(** The events of the module's emitter, with the arguments listed in the
    header comment; [manifest] is [manifest.data]. *)
Inductive event :=
| retrieve (manifest : loc) (user repo : string) (priv : bool)
| change (name : string) (differences : list diff) (manifest : loc)
         (user repo : string) (priv : bool).

(** What a step does to the world outside the module. *)
Inductive action :=
| Call (cb : callback) (o : outcome)
| Emit (e : event)
| Fetch (id : nat) (url : string).

(** [parseManifest]: a [SyntaxError] is smothered into [null]. *)
Definition parseManifest (body : string) : json :=
  match JSON_parse body with
  | Some v => v
  | None => JNull
  end.

(** The URL of lines 72-76; [&at=] is added only for a set [ref]. *)
Definition requestUrl (user repo : string) (ref : option string) : string :=
  protocol stash +:+ "://" +:+ user_name stash +:+ ":" +:+ user_password stash
    +:+ "@" +:+ host stash +:+ "/projects/" +:+ user +:+ "/repos/" +:+ repo
    +:+ "/browse/package.json?raw"
    +:+ match ref with
        | Some r => "&at=" +:+ r
        | None => EmptyString
        end.

(** [exports.getManifest], up to the point where the request is handed to
    the network ([opts] is built and never used). *)
Definition getManifest (now : Z) (user repo : string) (ref authToken : option string)
    (cb : callback) (s : State) : State * list action :=
  let ref := normRef ref in
  let manifest := lookupManifest (manifests s) user repo ref in
  match servable now manifest with
  | Some m =>
      let '(h, copy) := deepCopy (heap s) (data m) in
      (withHeap s h, [Call cb (Success copy)])
  | None =>
      let batchKey := batchKeyOf user repo authToken in
      if batch.exists_ (batches s) batchKey then
        (withBatches s (batch.push (batches s) batchKey cb), [])
      else
        let rq := mkRequest (nextId s) (requestUrl user repo ref)
                            user repo ref batchKey manifest in
        (mkState (manifests s) (batch.push (batches s) batchKey cb) (heap s)
                 (TTL s) (inflight s ++ [rq]) (S (nextId s)),
         [Fetch (rq_id rq) (rq_url rq)])
  end.

(** The invokers handed to [batch.call]: [cb(er)] or [cb(null, manifest.data)]
    passes the same arguments to every waiter; the third one makes a copy
    per waiter. *)
Definition deliver (o : outcome) (cb : callback) (acc : list json * list action)
  : list json * list action :=
  (acc.1, acc.2 ++ [Call cb o]).

Definition deliverCopy (d : loc) (cb : callback) (acc : list json * list action)
  : list json * list action :=
  let '(h, copy) := deepCopy acc.1 d in
  (h, acc.2 ++ [Call cb (Success copy)]).

(** [batch.call(batchKey, invoker)] on the module state. *)
Definition callBatch (s : State) (batchKey : string)
    (fn : callback → list json * list action → list json * list action)
  : State * list action :=
  let '(b, (h, calls)) := batch.call (batches s) batchKey fn (heap s, []) in
  (mkState (manifests s) b h (TTL s) (inflight s) (nextId s), calls).

(** [oldManifest ? oldManifest.data[section] : {}] *)
Definition oldSection (h : list json) (oldManifest : option Manifest) (section : string)
  : option json :=
  match oldManifest with
  | Some old => getProp (deref h (data old)) section
  | None => Some (JObj [])
  end.

(** The two arguments [depDiff] is applied to for a section. *)
Definition diffArgs (h : list json) (oldManifest : option Manifest) (d : loc)
    (section : string) : option json * option json :=
  (oldSection h oldManifest section, getProp (deref h d) section).

(** [diffs = depDiff(old, new); if (diffs.length) exports.emit(...)] *)
Definition sectionChange (h : list json) (oldManifest : option Manifest) (d : loc)
    (user repo : string) (priv : bool) (section : string) : list action :=
  let args := diffArgs h oldManifest d section in
  let diffs := depDiff args.1 args.2 in
  match diffs with
  | [] => []
  | _ :: _ => [Emit (change (section +:+ "Change") diffs d user repo priv)]
  end.

(** Lines 126-158: [retrieve] for a first manifest, otherwise one change
    event per section that differs. *)
Definition notify (h : list json) (oldManifest : option Manifest) (d : loc)
    (user repo : string) (priv : bool) : list action :=
  match oldManifest with
  | None => [Emit (retrieve d user repo priv)]
  | Some _ => flat_map (sectionChange h oldManifest d user repo priv) sections
  end.

Arguments notify : simpl never.

(** [onGetRepo (er, repoData)], [d] being the address of [data]. *)
Definition onGetRepo (now : Z) (rq : Request) (d : loc)
    (er : option string) (repoPrivate : bool) (s : State) : State * list action :=
  match er with
  | Some e => callBatch s (rq_batchKey rq) (deliver (Failure (RepoError e)))
  | None =>
      let oldManifest := rq_manifest rq in
      let h := mutate (heap s) d "ref" (refValue (rq_ref rq)) in
      let manifest := mkManifest d repoPrivate (now + TTL s) in
      let ms := storeManifest (manifests s) (rq_user rq) (rq_repo rq) (rq_ref rq) manifest in
      let '(s', calls) :=
        callBatch (mkState ms (batches s) h (TTL s) (inflight s) (nextId s))
                  (rq_batchKey rq) (deliver (Success (data manifest))) in
      (s', calls ++ notify (heap s') oldManifest (data manifest)
                           (rq_user rq) (rq_repo rq) repoPrivate)
  end.

(** The completion handler given to [request], lines 78-160: a transport
    error; the entry read at call time that is still fresh; else the body,
    parsed, is refused or goes on to [onGetRepo(null, {"private": false})]. *)
Definition onResponse (now : Z) (rq : Request) (er : option string) (body : string)
    (s : State) : State * list action :=
  match er with
  | Some e => callBatch s (rq_batchKey rq) (deliver (Failure (RequestError e)))
  | None =>
      let fetched :=
        let data := parseManifest body in
        if negb (truthy data) then
          callBatch s (rq_batchKey rq)
            (deliver (Failure (ParseError ("Failed to parse package.json: " +:+ body))))
        else
          let '(h, d) := alloc (heap s) data in
          onGetRepo now rq d None false (withHeap s h) in
      match rq_manifest rq with
      | Some m =>
          if isFresh now m then callBatch s (rq_batchKey rq) (deliverCopy (data m))
          else fetched
      | None => fetched
      end
  end.

(** ** The event loop *)

Inductive input :=
| GetManifest (user repo : string) (ref authToken : option string) (cb : callback)
| Response (id : nat) (er : option string) (body : string)
| SetCacheDuration (duration : Z)
| Mutate (l : loc) (k : string) (v : json).

(** One turn of the event loop at time [now]: a call of the module, the
    completion of the request [id] (each request completes once), or a
    caller writing to an object it holds. *)
Definition step (now : Z) (i : input) (s : State) : State * list action :=
  match i with
  | GetManifest user repo ref authToken cb => getManifest now user repo ref authToken cb s
  | Response id er body =>
      match takeRequest id (inflight s) with
      | Some (rq, rest) => onResponse now rq er body (withInflight s rest)
      | None => (s, [])
      end
  | SetCacheDuration duration => (setCacheDuration duration s, [])
  | Mutate l k v => (withHeap s (mutate (heap s) l k v), [])
  end.

Fixpoint run (turns : list (Z * input)) (s : State) : State * list action :=
  match turns with
  | [] => (s, [])
  | (now, i) :: rest =>
      let '(s1, out1) := step now i s in
      let '(s2, out2) := run rest s1 in
      (s2, out1 ++ out2)
  end.

(** The states the module can be in: turns are taken at times that do not
    go backwards. *)
Inductive reachable : Z → State → Prop :=
| reach_initial t : reachable t initial
| reach_step t t' i s :
    reachable t s → t ≤ t' → reachable t' (step t' i s).1.

(** Turns taken in order, from time [t] on and no later than [t_end]. *)
Fixpoint ordered (t : Z) (turns : list (Z * input)) (t_end : Z) : Prop :=
  match turns with
  | [] => t ≤ t_end
  | (t', _) :: rest => t ≤ t' ∧ ordered t' rest t_end
  end.

(** The time of the last turn. *)
Fixpoint endTime (t : Z) (turns : list (Z * input)) : Z :=
  match turns with
  | [] => t
  | (t', _) :: rest => endTime t' rest
  end.

(** An action that carries no private flag and no error of the visibility
    lookup. *)
Definition publicAction (a : action) : Prop :=
  match a with
  | Emit (retrieve _ _ _ priv) => priv = false
  | Emit (change _ _ _ _ _ priv) => priv = false
  | Call _ (Failure (RepoError _)) => False
  | _ => True
  end.

Definition isEmit (a : action) : Prop :=
  match a with
  | Emit _ => True
  | _ => False
  end.

(** A call of [getManifest] with the time it is made at. *)
Record Caller := mkCaller {
  c_time : Z;
  c_user : string;
  c_repo : string;
  c_ref : option string;
  c_authToken : option string;
  c_cb : callback
}.

Definition callOf (c : Caller) : Z * input :=
  (c_time c, GetManifest (c_user c) (c_repo c) (c_ref c) (c_authToken c) (c_cb c)).

(** The call is not answered from the cache of [s]. *)
Definition misses (s : State) (c : Caller) : Prop :=
  servable (c_time c)
    (lookupManifest (manifests s) (c_user c) (c_repo c) (normRef (c_ref c))) = None.

(** The error a failed fetch hands to the waiters. *)
Definition failureOf (er : option string) (body : string) : error :=
  match er with
  | Some e => RequestError e
  | None => ParseError ("Failed to parse package.json: " +:+ body)
  end.

(** *** Invariants of the reachable states *)

(** Every cached entry is public. *)
Definition allPublic (s : State) : Prop :=
  ∀ user repo ref m,
    lookupManifest (manifests s) user repo ref = Some m → private m = false.

(** The entry a pending request read at call time is public and had expired
    by time [t]. *)
Definition capturedStale (t : Z) (s : State) : Prop :=
  ∀ rq m, rq ∈ inflight s → rq_manifest rq = Some m →
    private m = false ∧ expires m ≤ t.

(** Groups and requests in flight correspond, one request per key. *)
Definition coalesced (s : State) : Prop :=
  NoDup (map rq_batchKey (inflight s))
  ∧ (∀ k, is_Some (batches s !! k) ↔ k ∈ map rq_batchKey (inflight s))
  ∧ (∀ rq, rq ∈ inflight s → (rq_id rq < nextId s)%nat).

Definition invariant (t : Z) (s : State) : Prop :=
  allPublic s ∧ capturedStale t s ∧ coalesced s.


(** ** Auxiliary facts *)

Lemma deref_app_copies (h : list json) (d : loc) (n : nat) :
  deref (h ++ replicate n (deref h d)) d = deref h d.
Proof.
  unfold deref. destruct (h !! d) as [v|] eqn:E; simpl.
  - by rewrite (lookup_app_l_Some _ _ _ _ E).
  - apply lookup_ge_None in E.
    destruct ((h ++ replicate n JNull) !! d) as [w|] eqn:E'; [|done]. simpl.
    rewrite lookup_app_r in E' by done.
    apply lookup_replicate in E'. by destruct E' as [-> _].
Qed.

Lemma foldl_deliver (o : outcome) (cbs : list callback) (h : list json)
    (tr : list action) :
  foldl (λ acc cb, deliver o cb acc) (h, tr) cbs
  = (h, tr ++ map (λ cb, Call cb o) cbs).
Proof.
  revert tr. induction cbs as [|cb cbs IH]; intros tr; simpl.
  - by rewrite app_nil_r.
  - unfold deliver at 2. simpl. rewrite IH. by rewrite <- app_assoc.
Qed.

Lemma foldl_deliverCopy (d : loc) (cbs : list callback) (h : list json)
    (tr : list action) :
  foldl (λ acc cb, deliverCopy d cb acc) (h, tr) cbs
  = (h ++ replicate (length cbs) (deref h d),
     tr ++ imap (λ i cb, Call cb (Success (length h + i)%nat)) cbs).
Proof.
  revert h tr. induction cbs as [|cb cbs IH]; intros h tr; simpl.
  - by rewrite !app_nil_r.
  - unfold deliverCopy at 2, deepCopy, alloc. simpl. rewrite IH.
    pose proof (deref_app_copies h d 1) as E1. simpl in E1. rewrite E1.
    rewrite <- !app_assoc. simpl. f_equal. f_equal.
    rewrite Nat.add_0_r. f_equal.
    apply imap_ext. intros i x _. simpl. rewrite length_app. simpl.
    do 2 f_equal. lia.
Qed.

Lemma callBatch_deliver (s : State) (k : string) (o : outcome) :
  callBatch s k (deliver o)
  = (mkState (manifests s) (delete k (batches s)) (heap s) (TTL s) (inflight s)
             (nextId s),
     map (λ cb, Call cb o) (batch.waiters (batches s) k)).
Proof. unfold callBatch, batch.call. by rewrite foldl_deliver. Qed.

Lemma callBatch_deliverCopy (s : State) (k : string) (d : loc) :
  callBatch s k (deliverCopy d)
  = (mkState (manifests s) (delete k (batches s))
             (heap s ++ replicate (length (batch.waiters (batches s) k))
                                  (deref (heap s) d))
             (TTL s) (inflight s) (nextId s),
     imap (λ i cb, Call cb (Success (length (heap s) + i)%nat))
          (batch.waiters (batches s) k)).
Proof. unfold callBatch, batch.call. by rewrite foldl_deliverCopy. Qed.

Lemma lookup_store_eq (ms : gmap string (gmap string (gmap string Manifest)))
    (user repo : string) (ref : option string) (m : Manifest) :
  lookupManifest (storeManifest ms user repo ref m) user repo ref = Some m.
Proof.
  unfold lookupManifest, storeManifest. by rewrite !lookup_insert_eq.
Qed.

Lemma lookup_store_ne (ms : gmap string (gmap string (gmap string Manifest)))
    (user repo : string) (ref : option string) (m : Manifest)
    (user' repo' : string) (ref' : option string) :
  (user, repo, refKey ref) ≠ (user', repo', refKey ref') →
  lookupManifest (storeManifest ms user repo ref m) user' repo' ref'
  = lookupManifest ms user' repo' ref'.
Proof.
  intros Hne. unfold lookupManifest, storeManifest.
  destruct (decide (user = user')) as [<-|Hu]; [|by rewrite lookup_insert_ne].
  rewrite lookup_insert_eq.
  destruct (decide (repo = repo')) as [<-|Hr].
  - rewrite lookup_insert_eq.
    rewrite lookup_insert_ne by congruence.
    destruct (ms !! user) as [byRepo|]; simpl; [|done].
    by destruct (byRepo !! repo).
  - rewrite lookup_insert_ne by done.
    destruct (ms !! user) as [byRepo|]; simpl; [done|].
    by rewrite lookup_empty.
Qed.

Lemma servable_Some (now : Z) (entry : option Manifest) (m : Manifest) :
  servable now entry = Some m ↔
  entry = Some m ∧ private m = false ∧ now < expires m.
Proof.
  unfold servable, isFresh. destruct entry as [m'|].
  - destruct (private m') eqn:Ep; simpl.
    + split; [discriminate|]. intros (E & Hp & _). congruence.
    + case_bool_decide as Hlt.
      * split; [intros [= <-]; done|]. by intros ([= ->] & _ & _).
      * split; [discriminate|]. intros ([= ->] & _ & Hlt'). done.
  - split; [discriminate|]. by intros (? & _).
Qed.


(** ** The synchronous cache path *)


Lemma ownNamesOnly_empty : ownNamesOnly ∅.
Proof. intros user byRepo Hu. by rewrite lookup_empty in Hu. Qed.

Lemma ownNamesOnly_store (ms : gmap string (gmap string (gmap string Manifest)))
    (user repo : string) (ref : option string) (m : Manifest) :
  ownNamesOnly ms →
  ownName user = true → ownName repo = true → ownName (refKey ref) = true →
  ownNamesOnly (storeManifest ms user repo ref m).
Proof.
  intros Hms Hu Hr Hk user' byRepo'. unfold storeManifest.
  destruct (decide (user = user')) as [<-|Hne].
  - rewrite lookup_insert_eq. intros [= <-]. split; [done|].
    intros repo' byRef'.
    destruct (decide (repo = repo')) as [<-|Hne'].
    + rewrite lookup_insert_eq. intros [= <-]. split; [done|].
      intros k' m'. destruct (decide (refKey ref = k')) as [<-|Hne''].
      * done.
      * rewrite lookup_insert_ne by done.
        destruct (ms !! user) as [byRepo|] eqn:Eu; simpl;
          [|by rewrite lookup_empty].
        destruct (byRepo !! repo) as [byRef|] eqn:Er; simpl;
          [|by rewrite lookup_empty].
        intros Hk'. destruct (Hms _ _ Eu) as [_ H1].
        destruct (H1 _ _ Er) as [_ H2]. by eapply H2.
    + rewrite lookup_insert_ne by done.
      destruct (ms !! user) as [byRepo|] eqn:Eu; simpl;
        [|by rewrite lookup_empty].
      intros Hr'. destruct (Hms _ _ Eu) as [_ H1]. by eapply H1.
  - rewrite lookup_insert_ne by done. apply Hms.
Qed.


(** ** Cache slots and the absent ref *)


(** ** Invariants of the reachable states *)

Lemma lookup_store_key (ms : gmap string (gmap string (gmap string Manifest)))
    (user repo : string) (ref ref' : option string) (m : Manifest) :
  refKey ref = refKey ref' →
  lookupManifest (storeManifest ms user repo ref m) user repo ref' = Some m.
Proof.
  intros E. unfold lookupManifest, storeManifest.
  rewrite !lookup_insert_eq. rewrite E. by rewrite lookup_insert_eq.
Qed.

Lemma lookup_store_inv (ms : gmap string (gmap string (gmap string Manifest)))
    (user repo : string) (ref : option string) (m : Manifest)
    (user' repo' : string) (ref' : option string) (m' : Manifest) :
  lookupManifest (storeManifest ms user repo ref m) user' repo' ref' = Some m' →
  m' = m ∨ lookupManifest ms user' repo' ref' = Some m'.
Proof.
  intros E.
  destruct (decide ((user, repo, refKey ref) = (user', repo', refKey ref')))
    as [[= <- <- Hk]|Hne].
  - rewrite lookup_store_key in E by done. left. congruence.
  - rewrite lookup_store_ne in E by done. by right.
Qed.

Lemma takeRequest_Some (id : nat) (rqs : list Request) (rq : Request)
    (rest : list Request) :
  takeRequest id rqs = Some (rq, rest) →
  ∃ l1 l2, rqs = l1 ++ rq :: l2 ∧ rest = l1 ++ l2 ∧ rq_id rq = id.
Proof.
  revert rest. induction rqs as [|r rqs IH]; intros rest; simpl; [discriminate|].
  destruct (Nat.eqb_spec (rq_id r) id) as [E|E].
  - intros [= <- <-]. by exists [], rqs.
  - destruct (takeRequest id rqs) as [[found rest']|]; [|discriminate].
    intros [= <- <-]. destruct (IH rest' eq_refl) as (l1 & l2 & -> & -> & Hid).
    by exists (r :: l1), l2.
Qed.

(** What the completion handler does to the state, whichever branch it
    takes: the group of its key is gone, and the cache is either untouched or
    has the new, public entry in the slot of the request. *)
Lemma onResponse_state (now : Z) (rq : Request) (er : option string)
    (body : string) (s : State) :
  let s' := (onResponse now rq er body s).1 in
  batches s' = delete (rq_batchKey rq) (batches s)
  ∧ inflight s' = inflight s
  ∧ nextId s' = nextId s
  ∧ TTL s' = TTL s
  ∧ (manifests s' = manifests s
     ∨ ∃ d, manifests s'
            = storeManifest (manifests s) (rq_user rq) (rq_repo rq) (rq_ref rq)
                            (mkManifest d false (now + TTL s))).
Proof.
  unfold onResponse, onGetRepo.
  destruct er as [e|]; [rewrite callBatch_deliver; simpl; tauto|].
  destruct (rq_manifest rq) as [m|].
  - destruct (isFresh now m); [rewrite callBatch_deliverCopy; simpl; tauto|].
    destruct (truthy (parseManifest body)); simpl;
      rewrite callBatch_deliver; simpl; eauto 10.
  - destruct (truthy (parseManifest body)); simpl;
      rewrite callBatch_deliver; simpl; eauto 10.
Qed.

Lemma invariant_initial (t : Z) : invariant t initial.
Proof.
  split; [|split; [|split; [|split]]]; simpl.
  - intros user repo ref m. unfold lookupManifest. simpl.
    by rewrite lookup_empty.
  - intros rq m Hin. by apply elem_of_nil in Hin.
  - constructor.
  - intros k. rewrite lookup_empty. split; [by intros [? ?]|].
    intros Hin. by apply elem_of_nil in Hin.
  - intros rq Hin. by apply elem_of_nil in Hin.
Qed.

Lemma invariant_getManifest (t t' : Z) (user repo : string)
    (ref authToken : option string) (cb : callback) (s : State) :
  invariant t s → t ≤ t' →
  invariant t' (getManifest t' user repo ref authToken cb s).1.
Proof.
  intros (Hpub & Hstale & Hnd & Hgrp & Hid) Hle. unfold getManifest.
  set (entry := lookupManifest (manifests s) user repo (normRef ref)).
  set (key := batchKeyOf user repo authToken).
  assert (capturedStale t' s) as Hstale'.
  { intros rq m Hin Hm. destruct (Hstale rq m Hin Hm). split; [done|lia]. }
  destruct (servable t' entry) as [m|] eqn:E; simpl.
  { split; [exact Hpub|]. split; [exact Hstale'|]. split; [exact Hnd|].
    split; [exact Hgrp|exact Hid]. }
  unfold batch.exists_. case_bool_decide as Hex; simpl.
  - split; [exact Hpub|]. split; [exact Hstale'|]. split; [exact Hnd|].
    split; [|exact Hid].
    intros k. unfold withBatches, batch.push. simpl. rewrite <- Hgrp.
    destruct (decide (key = k)) as [<-|Hk].
    + rewrite lookup_insert_eq. split; [done|]. by eauto.
    + by rewrite lookup_insert_ne.
  - assert (key ∉ map rq_batchKey (inflight s)) as Hnew by (by rewrite <- Hgrp).
    split; [exact Hpub|]. split; [|split; [|split]]; simpl.
    + intros rq m Hin Hm. apply elem_of_app in Hin as [Hin|Hin].
      { by apply (Hstale' rq m). }
      apply list_elem_of_singleton in Hin as ->. simpl in Hm.
      assert (private m = false) as Hp by (by eapply Hpub).
      split; [done|].
      assert (servable t' (Some m) = None) as E' by (rewrite <- Hm; exact E).
      simpl in E'. rewrite Hp in E'. simpl in E'. unfold isFresh in E'.
      case_bool_decide; [discriminate|lia].
    + rewrite map_app. simpl. apply NoDup_app. split; [done|].
      split; [|apply NoDup_singleton].
      intros k Hk Hk'. apply list_elem_of_singleton in Hk' as ->. done.
    + intros k. unfold batch.push. rewrite map_app, elem_of_app. simpl.
      rewrite list_elem_of_singleton. rewrite <- Hgrp.
      destruct (decide (key = k)) as [<-|Hk].
      * rewrite lookup_insert_eq. split; [by right|by eauto].
      * rewrite lookup_insert_ne by done. split; [by left|].
        intros [?|?]; [done|congruence].
    + intros rq Hin. apply elem_of_app in Hin as [Hin|Hin].
      { specialize (Hid rq Hin). lia. }
      apply list_elem_of_singleton in Hin as ->. simpl. lia.
Qed.

Lemma invariant_response (t t' : Z) (id : nat) (er : option string)
    (body : string) (s : State) (rq : Request) (rest : list Request) :
  invariant t s → t ≤ t' →
  takeRequest id (inflight s) = Some (rq, rest) →
  invariant t' (onResponse t' rq er body (withInflight s rest)).1.
Proof.
  intros (Hpub & Hstale & Hnd & Hgrp & Hid) Hle Htake.
  apply takeRequest_Some in Htake as (l1 & l2 & Hl & -> & _).
  pose proof (onResponse_state t' rq er body (withInflight s (l1 ++ l2)))
    as (Hb & Hi & Hn & _ & Hm).
  simpl in Hb, Hi, Hn, Hm.
  set (s' := (onResponse t' rq er body
                (withInflight s (l1 ++ l2))).1) in *.
  unfold capturedStale in Hstale. rewrite Hl in Hnd, Hgrp, Hstale, Hid.
  rewrite map_app in Hnd. simpl in Hnd.
  apply NoDup_app in Hnd as (Hnd1 & Hdisj & Hnd2).
  apply NoDup_cons in Hnd2 as (Hnot2 & Hnd2).
  assert (rq_batchKey rq ∉ map rq_batchKey (l1 ++ l2)) as Hgone.
  { rewrite map_app, elem_of_app. intros [H1|H2]; [|done].
    apply (Hdisj _ H1). by left. }
  split; [|split; [|split; [|split]]].
  - intros user repo ref m Hlook. destruct Hm as [Hm|[d Hm]]; rewrite Hm in Hlook.
    + by eapply Hpub.
    + apply lookup_store_inv in Hlook as [->|Hlook]; [done|by eapply Hpub].
  - intros r m Hin Hr. rewrite Hi in Hin.
    destruct (Hstale r m) as [? ?]; [|done|split; [done|lia]].
    apply elem_of_app in Hin as [?|?]; apply elem_of_app; [by left|].
    right. by right.
  - rewrite Hi, map_app. apply NoDup_app. split; [done|]. split; [|done].
    intros k H1 H2. apply (Hdisj k H1). by right.
  - intros k. rewrite Hb, Hi.
    destruct (decide (rq_batchKey rq = k)) as [<-|Hk].
    + rewrite lookup_delete_eq. split; [by intros [? ?]|done].
    + rewrite lookup_delete_ne by done. rewrite Hgrp.
      rewrite !map_app, !elem_of_app. simpl. rewrite elem_of_cons.
      intuition congruence.
  - intros r Hin. rewrite Hi in Hin. rewrite Hn. apply Hid.
    apply elem_of_app in Hin as [?|?]; apply elem_of_app; [by left|].
    right. by right.
Qed.

Lemma invariant_step (t t' : Z) (i : input) (s : State) :
  invariant t s → t ≤ t' → invariant t' (step t' i s).1.
Proof.
  intros Hinv Hle. destruct i as [user repo ref tok cb|id er body|d|l k v]; simpl.
  - by eapply invariant_getManifest.
  - destruct (takeRequest id (inflight s)) as [[rq rest]|] eqn:E.
    + by eapply invariant_response.
    + destruct Hinv as (Hpub & Hstale & Hco). split; [done|]. split; [|done].
      intros rq m Hin Hm. destruct (Hstale rq m Hin Hm). split; [done|lia].
  - destruct Hinv as (Hpub & Hstale & Hco). split; [done|]. split; [|done].
    intros rq m Hin Hm. destruct (Hstale rq m Hin Hm). split; [done|lia].
  - destruct Hinv as (Hpub & Hstale & Hco). split; [done|]. split; [|done].
    intros rq m Hin Hm. destruct (Hstale rq m Hin Hm). split; [done|lia].
Qed.

Lemma reachable_invariant (t : Z) (s : State) :
  reachable t s → invariant t s.
Proof.
  induction 1 as [t|t t' i s _ IH Hle].
  - apply invariant_initial.
  - by eapply invariant_step.
Qed.

Lemma reachable_run (t t' : Z) (turns : list (Z * input)) (s : State) :
  reachable t s → ordered t turns t' →
  reachable (endTime t turns) (run turns s).1.
Proof.
  revert t s. induction turns as [|[t1 i] turns IH]; intros t s Hr Ho; simpl.
  - done.
  - destruct Ho as [Hle Ho].
    pose proof (reach_step t t1 i s Hr Hle) as Hr1.
    destruct (step t1 i s) as [s1 out1] eqn:E1. simpl in Hr1.
    specialize (IH t1 s1 Hr1 Ho).
    by destruct (run turns s1) as [s2 out2].
Qed.

Lemma notify_public (h : list json) (old : option Manifest) (d : loc)
    (user repo : string) :
  Forall publicAction (notify h old d user repo false).
Proof.
  unfold notify. destruct old as [m|]; [|by repeat constructor].
  apply Forall_flat_map. apply Forall_forall. intros section _.
  unfold sectionChange. destruct (depDiff _ _); by repeat constructor.
Qed.

Lemma notify_isEmit (h : list json) (old : option Manifest) (d : loc)
    (user repo : string) (priv : bool) :
  Forall isEmit (notify h old d user repo priv).
Proof.
  unfold notify. destruct old as [m|]; [|by repeat constructor].
  apply Forall_flat_map. apply Forall_forall. intros section _.
  unfold sectionChange. destruct (depDiff _ _); by repeat constructor.
Qed.

(** The refresh: the transport succeeded, the entry read at call time (if
    any) has expired, and the body parsed to a truthy value. *)
Lemma onResponse_refresh (now : Z) (rq : Request) (body : string) (s : State) :
  (∀ m, rq_manifest rq = Some m → isFresh now m = false) →
  truthy (parseManifest body) = true →
  onResponse now rq None body s
  = let d := length (heap s) in
    let h := mutate (heap s ++ [parseManifest body]) d "ref" (refValue (rq_ref rq)) in
    (mkState (storeManifest (manifests s) (rq_user rq) (rq_repo rq) (rq_ref rq)
                            (mkManifest d false (now + TTL s)))
             (delete (rq_batchKey rq) (batches s)) h (TTL s) (inflight s) (nextId s),
     map (λ cb, Call cb (Success d)) (batch.waiters (batches s) (rq_batchKey rq))
     ++ notify h (rq_manifest rq) d (rq_user rq) (rq_repo rq) false).
Proof.
  intros Hstale Htruthy. unfold onResponse, onGetRepo.
  destruct (rq_manifest rq) as [m|].
  - rewrite (Hstale m eq_refl), Htruthy. simpl.
    by rewrite callBatch_deliver.
  - rewrite Htruthy. simpl. by rewrite callBatch_deliver.
Qed.

(** The failure to parse: the body is no JSON, or JSON for a falsy value. *)
Lemma onResponse_unparsed (now : Z) (rq : Request) (body : string) (s : State) :
  (∀ m, rq_manifest rq = Some m → isFresh now m = false) →
  truthy (parseManifest body) = false →
  onResponse now rq None body s
  = callBatch s (rq_batchKey rq) (deliver (Failure (failureOf None body))).
Proof.
  intros Hstale Hfalsy. unfold onResponse.
  destruct (rq_manifest rq) as [m|].
  - by rewrite (Hstale m eq_refl), Hfalsy.
  - by rewrite Hfalsy.
Qed.

Lemma onResponse_public (now : Z) (rq : Request) (er : option string)
    (body : string) (s : State) :
  Forall publicAction (onResponse now rq er body s).2.
Proof.
  assert (∀ o (cbs : list callback),
            (∀ e, o ≠ Failure (RepoError e)) →
            Forall publicAction (map (λ cb, Call cb o) cbs)) as Hcalls.
  { intros o cbs Ho. apply Forall_forall. intros a Ha.
    apply list_elem_of_fmap in Ha as (cb & -> & _). simpl.
    destruct o as [[]|]; try done. by eapply Ho. }
  assert (∀ (k : nat) (cbs : list callback),
            Forall publicAction
              (imap (λ i cb, Call cb (Success (k + i)%nat)) cbs)) as Hcopies.
  { intros k cbs. apply Forall_forall. intros a Ha.
    apply elem_of_lookup_imap in Ha as (i & cb & -> & _). done. }
  destruct er as [e|].
  { unfold onResponse. rewrite callBatch_deliver. simpl. by apply Hcalls. }
  destruct (rq_manifest rq) as [m|] eqn:Hm.
  - destruct (isFresh now m) eqn:Hf.
    { unfold onResponse. rewrite Hm, Hf, callBatch_deliverCopy. apply Hcopies. }
    destruct (truthy (parseManifest body)) eqn:Ht.
    + rewrite onResponse_refresh; [|congruence|done]. simpl.
      apply Forall_app. split; [by apply Hcalls|apply notify_public].
    + rewrite onResponse_unparsed; [|congruence|done].
      rewrite callBatch_deliver. by apply Hcalls.
  - destruct (truthy (parseManifest body)) eqn:Ht.
    + rewrite onResponse_refresh; [|congruence|done]. simpl.
      apply Forall_app. split; [by apply Hcalls|apply notify_public].
    + rewrite onResponse_unparsed; [|congruence|done].
      rewrite callBatch_deliver. by apply Hcalls.
Qed.

(** ** Visibility *)

(** C9: in every state the module can reach, every cached entry is public;
    whatever turn comes next, no callback is handed an error of the
    visibility lookup (that branch of [onGetRepo] is never entered), and every
    [retrieve] and change event carries [false] as its private flag. *)
Theorem entries_are_public (t : Z) (s : State) :
  reachable t s →
  allPublic s
  ∧ ∀ t' i, Forall publicAction (step t' i s).2.
Proof.
  intros Hr. split; [by destruct (reachable_invariant t s Hr)|].
  intros t' [user repo ref tok cb|id er body|d|l k v]; simpl; try by constructor.
  - unfold getManifest.
    destruct (servable _ _); simpl; [by repeat constructor|].
    destruct (batch.exists_ _ _); simpl; by repeat constructor.
  - destruct (takeRequest id (inflight s)) as [[rq rest]|]; [|by constructor].
    apply onResponse_public.
Qed.

(** ** Failed fetches *)


(** ** The entry read at call time, still fresh at completion *)

(** C6: when the transport succeeds and the entry the leader read at call
    time has not expired, every waiter is called once with the address of a
    new copy of that entry's data, a copy of its own; the body is not looked
    at, the cache is not written and no event is raised.  Such an entry is
    private whenever the request was made no later than now, because a fresh
    public entry is served by [getManifest] itself. *)
Theorem fresh_captured_entry (now : Z) (rq : Request) (body : string)
    (s : State) (m : Manifest) :
  rq_manifest rq = Some m → now < expires m →
  let r := onResponse now rq None body s in
  let waiting := batch.waiters (batches s) (rq_batchKey rq) in
  r.2 = imap (λ i cb, Call cb (Success (length (heap s) + i)%nat)) waiting
  ∧ heap r.1 = heap s ++ replicate (length waiting) (deref (heap s) (data m))
  ∧ (∀ i, (i < length waiting)%nat →
       deref (heap r.1) (length (heap s) + i)%nat = deref (heap s) (data m))
  ∧ manifests r.1 = manifests s
  ∧ batches r.1 !! rq_batchKey rq = None
  ∧ (∀ t0, t0 ≤ now → servable t0 (Some m) = None → private m = true).
Proof.
  intros Hm Hfresh r waiting. subst r. unfold onResponse. rewrite Hm.
  assert (isFresh now m = true) as -> by (unfold isFresh; by case_bool_decide).
  rewrite callBatch_deliverCopy. simpl. fold waiting.
  split; [done|]. split; [done|]. split; [|split; [done|split]].
  - intros i Hi. unfold deref at 1.
    rewrite lookup_app_r by lia.
    replace (length (heap s) + i - length (heap s))%nat with i by lia.
    by rewrite lookup_replicate_2.
  - by rewrite lookup_delete_eq.
  - intros t0 Hle Hs. simpl in Hs. destruct (private m); [done|].
    simpl in Hs. unfold isFresh in Hs. case_bool_decide; [discriminate|lia].
Qed.

(** ** Coalescing *)

Lemma takeRequest_last (n : nat) (rqs : list Request) (rq : Request) :
  (∀ r, r ∈ rqs → (rq_id r < n)%nat) → rq_id rq = n →
  takeRequest n (rqs ++ [rq]) = Some (rq, rqs).
Proof.
  intros Hold Hid. induction rqs as [|r rqs IH]; simpl.
  - by rewrite Hid, Nat.eqb_refl.
  - assert (rq_id r < n)%nat as Hr by (apply Hold; by left).
    destruct (Nat.eqb_spec (rq_id r) n) as [?|_]; [lia|].
    rewrite IH; [done|]. intros r' Hin. apply Hold. by right.
Qed.

(** The leader: a call that misses the cache while no request is in flight
    for its key. *)
Lemma leader_call (s : State) (c : Caller) :
  misses s c →
  batches s !! batchKeyOf (c_user c) (c_repo c) (c_authToken c) = None →
  step (callOf c).1 (callOf c).2 s
  = (mkState (manifests s)
             (<[batchKeyOf (c_user c) (c_repo c) (c_authToken c) := [c_cb c]]>
                (batches s))
             (heap s) (TTL s)
             (inflight s ++
                [mkRequest (nextId s)
                   (requestUrl (c_user c) (c_repo c) (normRef (c_ref c)))
                   (c_user c) (c_repo c) (normRef (c_ref c))
                   (batchKeyOf (c_user c) (c_repo c) (c_authToken c))
                   (lookupManifest (manifests s) (c_user c) (c_repo c)
                                   (normRef (c_ref c)))])
             (S (nextId s)),
     [Fetch (nextId s) (requestUrl (c_user c) (c_repo c) (normRef (c_ref c)))]).
Proof.
  intros Hmiss Hnone. unfold misses in Hmiss. simpl. unfold getManifest.
  rewrite Hmiss. unfold batch.exists_, batch.push. rewrite Hnone.
  rewrite bool_decide_eq_false_2 by (by intros [? ?]). done.
Qed.

(** The followers: calls that miss the cache while a request is in flight for
    their key only lengthen the queue. *)
Lemma follower_calls (key : string) (others : list Caller) (s : State)
    (queue : list callback) :
  batches s !! key = Some queue →
  Forall (λ c, batchKeyOf (c_user c) (c_repo c) (c_authToken c) = key
               ∧ servable (c_time c)
                   (lookupManifest (manifests s) (c_user c) (c_repo c)
                                   (normRef (c_ref c))) = None) others →
  run (map callOf others) s
  = (mkState (manifests s) (<[key := queue ++ map c_cb others]> (batches s))
             (heap s) (TTL s) (inflight s) (nextId s), []).
Proof.
  revert s queue. induction others as [|c others IH]; intros s queue Hq Hall.
  - simpl. rewrite app_nil_r, insert_id by done. by destruct s.
  - apply Forall_cons in Hall as [[Hkey Hmiss] Hall].
    change (run (map callOf (c :: others)) s)
      with (let '(s1, out1) := getManifest (c_time c) (c_user c) (c_repo c)
                                 (c_ref c) (c_authToken c) (c_cb c) s in
            let '(s2, out2) := run (map callOf others) s1 in (s2, out1 ++ out2)).
    unfold getManifest. rewrite Hmiss, Hkey.
    unfold batch.exists_, batch.push. rewrite Hq.
    rewrite bool_decide_eq_true_2 by eauto. simpl.
    rewrite (IH _ (queue ++ [c_cb c])); simpl.
    + rewrite insert_insert_eq. by rewrite <- app_assoc.
    + by rewrite lookup_insert_eq.
    + exact Hall.
Qed.

(** The outcome of a completion whose captured entry has expired: one
    outcome for every waiter, followed by events only; a success is the
    address of the data stored in the slot of the request. *)
Lemma onResponse_outcome (now : Z) (rq : Request) (er : option string)
    (body : string) (s : State) :
  (∀ m, rq_manifest rq = Some m → isFresh now m = false) →
  ∃ o events,
    (onResponse now rq er body s).2
    = map (λ cb, Call cb o) (batch.waiters (batches s) (rq_batchKey rq)) ++ events
    ∧ Forall isEmit events
    ∧ match o with
      | Success d =>
          manifests (onResponse now rq er body s).1
          = storeManifest (manifests s) (rq_user rq) (rq_repo rq) (rq_ref rq)
                          (mkManifest d false (now + TTL s))
      | Failure _ => manifests (onResponse now rq er body s).1 = manifests s
      end.
Proof.
  intros Hstale. destruct er as [e|].
  { exists (Failure (RequestError e)), []. unfold onResponse.
    rewrite callBatch_deliver. simpl. by rewrite app_nil_r. }
  destruct (truthy (parseManifest body)) eqn:Ht.
  - rewrite onResponse_refresh by done. simpl.
    eexists (Success _), _. split; [done|]. split; [apply notify_isEmit|done].
  - rewrite onResponse_unparsed by done. rewrite callBatch_deliver. simpl.
    eexists (Failure _), []. by rewrite app_nil_r.
Qed.

(** A leader, its followers, and the completion of the one request. *)
Lemma coalesced_run (s0 : State) (key : string) (leader : Caller)
    (others : list Caller) (t : Z) (er : option string) (body : string) :
  batches s0 !! key = None →
  (∀ rq, rq ∈ inflight s0 → (rq_id rq < nextId s0)%nat) →
  Forall (λ c, batchKeyOf (c_user c) (c_repo c) (c_authToken c) = key
               ∧ misses s0 c) (leader :: others) →
  (∀ m, lookupManifest (manifests s0) (c_user leader) (c_repo leader)
                       (normRef (c_ref leader)) = Some m → isFresh t m = false) →
  let r1 := run (map callOf (leader :: others)) s0 in
  let r2 := step t (Response (nextId s0) er body) r1.1 in
  r1.2 = [Fetch (nextId s0)
                (requestUrl (c_user leader) (c_repo leader) (normRef (c_ref leader)))]
  ∧ batch.waiters (batches r1.1) key = map c_cb (leader :: others)
  ∧ (∃ o events,
       r2.2 = map (λ c, Call (c_cb c) o) (leader :: others) ++ events
       ∧ Forall isEmit events
       ∧ match o with
         | Success d =>
             ∃ expiry,
               manifests r2.1
               = storeManifest (manifests s0) (c_user leader) (c_repo leader)
                               (normRef (c_ref leader)) (mkManifest d false expiry)
         | Failure _ => manifests r2.1 = manifests s0
         end)
  ∧ batches r2.1 !! key = None
  ∧ inflight r2.1 = inflight s0.
Proof.
  intros Hnone Hids Hall Hstale r1 r2.
  apply Forall_cons in Hall as [[Hkey Hmiss] Hall].
  assert (r1 = (mkState (manifests s0)
                        (<[key := map c_cb (leader :: others)]> (batches s0))
                        (heap s0) (TTL s0)
                        (inflight s0 ++
                           [mkRequest (nextId s0)
                              (requestUrl (c_user leader) (c_repo leader)
                                          (normRef (c_ref leader)))
                              (c_user leader) (c_repo leader)
                              (normRef (c_ref leader)) key
                              (lookupManifest (manifests s0) (c_user leader)
                                 (c_repo leader) (normRef (c_ref leader)))])
                        (S (nextId s0)),
                [Fetch (nextId s0)
                       (requestUrl (c_user leader) (c_repo leader)
                                   (normRef (c_ref leader)))])) as Hr1.
  { subst r1.
    change (run (map callOf (leader :: others)) s0)
      with (let '(s1, out1) := step (callOf leader).1 (callOf leader).2 s0 in
            let '(s2, out2) := run (map callOf others) s1 in (s2, out1 ++ out2)).
    rewrite leader_call; [|done|by rewrite Hkey]. rewrite Hkey.
    rewrite (follower_calls key others _ [c_cb leader]); simpl.
    - by rewrite insert_insert_eq.
    - by rewrite lookup_insert_eq.
    - eapply Forall_impl; [exact Hall|]. by intros c [? ?]. }
  subst r2. rewrite Hr1. simpl.
  split; [done|]. split.
  { unfold batch.waiters. by rewrite lookup_insert_eq. }
  rewrite takeRequest_last by done.
  set (rq := mkRequest _ _ _ _ _ _ _).
  set (s1 := withInflight _ _).
  destruct (onResponse_outcome t rq er body s1) as (o & events & Hout & Hev & Hms);
    [exact Hstale|].
  destruct (onResponse_state t rq er body s1) as (Hb & Hi & _).
  split; [|split].
  - exists o, events. split; [|split; [done|]].
    + rewrite Hout. f_equal. simpl. unfold batch.waiters.
      rewrite lookup_insert_eq. simpl. f_equal. by rewrite map_map.
    + destruct o as [e|d]; [exact Hms|]. by eexists.
  - rewrite Hb. simpl. by rewrite lookup_delete_eq.
  - by rewrite Hi.
Qed.


(** ** Colliding coalescing keys *)


(** ** The arguments of the differ *)

Lemma assoc_assign_ne (k k' : string) (x : json) (fields : list (string * json)) :
  k ≠ k' → assoc k (assign k' x fields) = assoc k fields.
Proof.
  intros Hne. induction fields as [|[k0 v0] fields IH]; simpl.
  - by rewrite (proj2 (String.eqb_neq k k')).
  - destruct (String.eqb_spec k' k0) as [<-|Hk0]; simpl.
    + by rewrite (proj2 (String.eqb_neq k k')).
    + destruct (String.eqb k k0); [done|exact IH].
Qed.

Lemma getProp_setProp_ne (v : json) (k k' : string) (x : json) :
  k ≠ k' → getProp (setProp v k' x) k = getProp v k.
Proof. intros Hne. destruct v; simpl; try done. by apply assoc_assign_ne. Qed.

Lemma deref_mutate_new (h : list json) (v : json) (k : string) (x : json) :
  deref (mutate (h ++ [v]) (length h) k x) (length h) = setProp v k x.
Proof.
  unfold mutate, deref at 1.
  rewrite list_lookup_insert_eq by (rewrite length_app; simpl; lia).
  simpl. unfold deref. by rewrite list_lookup_middle.
Qed.

Lemma deref_mutate_old (h : list json) (v : json) (k : string) (x : json) (l : loc) :
  (l < length h)%nat → deref (mutate (h ++ [v]) (length h) k x) l = deref h l.
Proof.
  intros Hl. unfold mutate, deref at 1.
  rewrite list_lookup_insert_ne by lia.
  rewrite lookup_app_l by done. done.
Qed.

Lemma flat_map_ext_elem {A B : Type} (f g : A → list B) (l : list A) :
  (∀ x, x ∈ l → f x = g x) → flat_map f l = flat_map g l.
Proof.
  induction l as [|a l IH]; intros Hext; simpl; [done|].
  rewrite (Hext a) by (by left). rewrite IH; [done|].
  intros x Hx. apply Hext. by right.
Qed.

Lemma section_is_not_ref (section : string) : section ∈ sections → section ≠ "ref".
Proof.
  unfold sections. rewrite !elem_of_cons, elem_of_nil.
  intros [->|[->|[->|[->|[]]]]]; discriminate.
Qed.

(** C8 (as amended): on a refresh the differ is applied, for each of the four
    sections, to the two values as they are read from the manifests: the
    section of the previous entry's data and the section of the parsed body,
    each of them undefined when the manifest has no such section.  The events
    raised are those of the differ's answers to exactly these arguments. *)
Theorem differ_arguments (now : Z) (rq : Request) (body : string) (s : State)
    (old : Manifest) :
  rq_manifest rq = Some old → expires old ≤ now →
  truthy (parseManifest body) = true →
  (data old < length (heap s))%nat →
  let r := onResponse now rq None body s in
  let oldData := deref (heap s) (data old) in
  let newData := parseManifest body in
  (∀ section, section ∈ sections →
     diffArgs (heap r.1) (rq_manifest rq) (length (heap s)) section
     = (getProp oldData section, getProp newData section))
  ∧ r.2 = map (λ cb, Call cb (Success (length (heap s))))
              (batch.waiters (batches s) (rq_batchKey rq))
          ++ flat_map
               (λ section,
                  match depDiff (getProp oldData section) (getProp newData section) with
                  | [] => []
                  | d :: ds =>
                      [Emit (change (section +:+ "Change") (d :: ds)
                                    (length (heap s)) (rq_user rq) (rq_repo rq) false)]
                  end) sections.
Proof.
  intros Hold Hexp Htruthy Hvalid r oldData newData.
  assert (∀ m, rq_manifest rq = Some m → isFresh now m = false) as Hstale.
  { intros m Hm. rewrite Hold in Hm. injection Hm as <-.
    unfold isFresh. case_bool_decide; [lia|done]. }
  subst r. rewrite onResponse_refresh by done. cbv zeta. cbn [fst snd heap].
  assert (∀ section, section ∈ sections →
            diffArgs
              (mutate (heap s ++ [parseManifest body]) (length (heap s)) "ref"
                      (refValue (rq_ref rq)))
              (rq_manifest rq) (length (heap s)) section
            = (getProp oldData section, getProp newData section)) as Hargs.
  { intros section Hin. unfold diffArgs, oldSection. rewrite Hold.
    rewrite deref_mutate_old by done. rewrite deref_mutate_new.
    rewrite getProp_setProp_ne by (by apply section_is_not_ref). done. }
  split; [exact Hargs|]. f_equal.
  unfold notify. rewrite Hold in Hargs |- *.
  apply flat_map_ext_elem. intros section Hin.
  unfold sectionChange. rewrite (Hargs section Hin). simpl.
  by destruct (depDiff _ _).
Qed.

(** ** Further properties of the module *)




Lemma inflight_stale (t t' : Z) (s : State) (id : nat) (rq : Request)
    (rest : list Request) :
  reachable t s → t ≤ t' →
  takeRequest id (inflight s) = Some (rq, rest) →
  ∀ m, rq_manifest rq = Some m → isFresh t' m = false.
Proof.
  intros Hr Hle Htake m Hm.
  destruct (reachable_invariant t s Hr) as (_ & Hstale & _).
  destruct (takeRequest_Some _ _ _ _ Htake) as (l1 & l2 & Hl & _ & _).
  destruct (Hstale rq m) as [_ Hexp]; [|done|].
  { rewrite Hl. apply elem_of_app. right. by left. }
  unfold isFresh. case_bool_decide; [lia|done].
Qed.

(** A completion in a reachable state whose body parses to a truthy value. *)
Lemma refresh_step (t t' : Z) (s : State) (id : nat) (rq : Request)
    (rest : list Request) (body : string) (v : json) :
  reachable t s → t ≤ t' →
  takeRequest id (inflight s) = Some (rq, rest) →
  JSON_parse body = Some v → truthy v = true →
  step t' (Response id None body) s
  = (mkState (storeManifest (manifests s) (rq_user rq) (rq_repo rq) (rq_ref rq)
                            (mkManifest (length (heap s)) false (t' + TTL s)))
             (delete (rq_batchKey rq) (batches s))
             (mutate (heap s ++ [v]) (length (heap s)) "ref" (refValue (rq_ref rq)))
             (TTL s) rest (nextId s),
     map (λ cb, Call cb (Success (length (heap s))))
         (batch.waiters (batches s) (rq_batchKey rq))
     ++ notify (mutate (heap s ++ [v]) (length (heap s)) "ref" (refValue (rq_ref rq)))
               (rq_manifest rq) (length (heap s)) (rq_user rq) (rq_repo rq) false).
Proof.
  intros Hr Hle Htake Hparse Htruthy. unfold step. rewrite Htake.
  assert (parseManifest body = v) as Hv by (unfold parseManifest; by rewrite Hparse).
  rewrite onResponse_refresh.
  - simpl. by rewrite Hv.
  - by eapply inflight_stale.
  - by rewrite Hv.
Qed.

Lemma length_mutate (h : list json) (l : loc) (k : string) (x : json) :
  length (mutate h l k x) = length h.
Proof. unfold mutate. apply length_insert. Qed.

(** X1: in a reachable state, for names that plain objects resolve
    themselves, a completion without transport error whose body is a JSON
    object always stores the body: the slot of the request holds a new public
    entry whose data is a new document, the parsed object with [ref] assigned
    to the ref of the request (replacing a ["ref"] of the body); every waiter
    is called with the address of that very document before any event is
    raised; no other such slot changes and no document already on the heap is
    written to. *)
Theorem refresh_stores_the_body (t t' : Z) (s : State) (id : nat) (rq : Request)
    (rest : list Request) (body : string) (fields : list (string * json)) :
  reachable t s → t ≤ t' →
  takeRequest id (inflight s) = Some (rq, rest) →
  JSON_parse body = Some (JObj fields) →
  ownNamesOnly (manifests s) →
  ownName (rq_user rq) = true → ownName (rq_repo rq) = true →
  ownName (refKey (rq_ref rq)) = true →
  let r := step t' (Response id None body) s in
  let stored := length (heap s) in
  (∃ expiry,
     lookupManifest (manifests r.1) (rq_user rq) (rq_repo rq) (rq_ref rq)
     = Some (mkManifest stored false expiry))
  ∧ deref (heap r.1) stored = JObj (assign "ref" (refValue (rq_ref rq)) fields)
  ∧ (∃ events,
       r.2 = map (λ cb, Call cb (Success stored))
                 (batch.waiters (batches s) (rq_batchKey rq)) ++ events
       ∧ Forall isEmit events)
  ∧ (∀ user repo ref,
       ownName user = true → ownName repo = true → ownName (refKey ref) = true →
       (rq_user rq, rq_repo rq, refKey (rq_ref rq)) ≠ (user, repo, refKey ref) →
       lookupManifest (manifests r.1) user repo ref
       = lookupManifest (manifests s) user repo ref)
  ∧ (∀ l, (l < stored)%nat → deref (heap r.1) l = deref (heap s) l)
  ∧ ownNamesOnly (manifests r.1).
Proof.
  intros Hr Hle Htake Hparse Hplain Hu Hrepo Hk r stored. subst r stored.
  rewrite (refresh_step t t' s id rq rest body (JObj fields)) by done. simpl.
  split; [eexists; apply lookup_store_eq|].
  split; [by rewrite deref_mutate_new|].
  split; [eexists; split; [done|apply notify_isEmit]|].
  split; [|split].
  - intros user repo ref _ _ _ Hne. by apply lookup_store_ne.
  - intros l Hl. by apply deref_mutate_old.
  - by apply ownNamesOnly_store.
Qed.


(** X4: write, then read.  For names that plain objects resolve themselves
    and an expiry within the range of a date: after a refresh at time [t'], a
    call for the same user, repository and ref made before [t' + TTL] is
    answered at once, with the address of a new document and not that of the
    stored one; a call made at [t' + TTL] or later is not answered: it joins
    the group of its key and, if the key has no group, issues a request that
    remembers the stored entry. *)
Theorem ttl_window (t t' : Z) (s : State) (id : nat) (rq : Request)
    (rest : list Request) (body : string) (v : json)
    (now : Z) (ref authToken : option string) (cb : callback) :
  reachable t s → t ≤ t' →
  takeRequest id (inflight s) = Some (rq, rest) →
  JSON_parse body = Some v → truthy v = true →
  normRef ref = rq_ref rq →
  ownNamesOnly (manifests s) →
  ownName (rq_user rq) = true → ownName (rq_repo rq) = true →
  ownName (refKey (rq_ref rq)) = true →
  validDate (t' + TTL s) →
  let s1 := (step t' (Response id None body) s).1 in
  let stored := mkManifest (length (heap s)) false (t' + TTL s) in
  let key := batchKeyOf (rq_user rq) (rq_repo rq) authToken in
  let r := getManifest now (rq_user rq) (rq_repo rq) ref authToken cb s1 in
  (now < t' + TTL s →
     r.2 = [Call cb (Success (S (length (heap s))))]
     ∧ length (heap r.1) = S (S (length (heap s)))
     ∧ manifests r.1 = manifests s1)
  ∧ (t' + TTL s ≤ now →
     batch.waiters (batches r.1) key = batch.waiters (batches s1) key ++ [cb]
     ∧ manifests r.1 = manifests s1
     ∧ if batch.exists_ (batches s1) key
       then r.2 = []
       else r.2 = [Fetch (nextId s) (requestUrl (rq_user rq) (rq_repo rq) (rq_ref rq))]
            ∧ inflight r.1
              = rest ++ [mkRequest (nextId s)
                           (requestUrl (rq_user rq) (rq_repo rq) (rq_ref rq))
                           (rq_user rq) (rq_repo rq) (rq_ref rq) key (Some stored)]).
Proof.
  intros Hr Hle Htake Hparse Htruthy Href _ _ _ _ _ s1 stored key r.
  subst r s1. rewrite (refresh_step t t' s id rq rest body v) by done.
  cbn [fst]. unfold getManifest. cbn [manifests heap batches inflight nextId TTL].
  rewrite Href, lookup_store_eq. fold stored. fold key.
  split.
  - intros Hnow.
    assert (servable now (Some stored) = Some stored) as ->.
    { simpl. unfold isFresh. simpl. by rewrite bool_decide_eq_true_2. }
    unfold deepCopy, alloc, withHeap. simpl.
    rewrite !length_app, length_mutate, length_app. simpl.
    replace (length (heap s) + 1)%nat with (S (length (heap s))) by lia.
    split; [done|]. split; [lia|done].
  - intros Hnow.
    assert (servable now (Some stored) = None) as ->.
    { simpl. unfold isFresh. simpl. by rewrite bool_decide_eq_false_2 by lia. }
    destruct (batch.exists_ _ key) eqn:Hex; simpl.
    + unfold batch.waiters, batch.push. by rewrite lookup_insert_eq.
    + unfold batch.waiters, batch.push. by rewrite lookup_insert_eq.
Qed.

(** X5: the ref is no part of the coalescing key.  For names that plain
    objects resolve themselves, a call for one ref that
    finds a request in flight for another ref of the same repository and
    token only joins its group: no request is made for its ref, it is called
    with the outcome of the leader's request, and its own slot is left as it
    was. *)
Theorem refs_share_a_fetch (t0 : Z) (s0 : State) (user repo : string)
    (authToken ref1 ref2 : option string) (cb1 cb2 : callback)
    (t1 t2 t : Z) (er : option string) (body : string) :
  reachable t0 s0 → t0 ≤ t1 → t1 ≤ t2 → t2 ≤ t →
  ownNamesOnly (manifests s0) →
  ownName user = true → ownName repo = true →
  ownName (slotOf ref1) = true → ownName (slotOf ref2) = true →
  batches s0 !! batchKeyOf user repo authToken = None →
  slotOf ref1 ≠ slotOf ref2 →
  misses s0 (mkCaller t1 user repo ref1 authToken cb1) →
  misses s0 (mkCaller t2 user repo ref2 authToken cb2) →
  let r1 := run [(t1, GetManifest user repo ref1 authToken cb1);
                 (t2, GetManifest user repo ref2 authToken cb2)] s0 in
  let r2 := step t (Response (nextId s0) er body) r1.1 in
  r1.2 = [Fetch (nextId s0) (requestUrl user repo (normRef ref1))]
  ∧ (∃ o events, r2.2 = [Call cb1 o; Call cb2 o] ++ events ∧ Forall isEmit events)
  ∧ lookupManifest (manifests r2.1) user repo (normRef ref2)
    = lookupManifest (manifests s0) user repo (normRef ref2).
Proof.
  intros Hr H1 H2 H3 _ _ _ _ _ Hnone Hslot Hm1 Hm2 r1 r2.
  destruct (reachable_invariant t0 s0 Hr) as (Hpub & _ & _ & _ & Hids).
  pose proof (coalesced_run s0 (batchKeyOf user repo authToken)
                (mkCaller t1 user repo ref1 authToken cb1)
                [mkCaller t2 user repo ref2 authToken cb2] t er body) as Hrun.
  simpl in Hrun.
  destruct Hrun as (Hfetch & _ & (o & events & Hout & Hev & Hms) & _); try done.
  { by repeat constructor. }
  { intros m Hm. unfold misses in Hm1. simpl in Hm1. rewrite Hm in Hm1.
    simpl in Hm1. rewrite (Hpub _ _ _ _ Hm) in Hm1. simpl in Hm1.
    unfold isFresh in *. case_bool_decide; [discriminate|].
    case_bool_decide; [lia|done]. }
  split; [exact Hfetch|]. split; [by exists o, events|].
  subst r2 r1. simpl.
  destruct o as [e|d].
  - simpl in Hms. by rewrite Hms.
  - destruct Hms as [expiry Hms]. simpl in Hms. rewrite Hms.
    apply lookup_store_ne. unfold slotOf in Hslot. congruence.
Qed.

(** X6: nothing is ever evicted.  A slot that holds an entry holds one after
    any turn, and only the completion of a request writes to the cache. *)
Theorem entries_never_removed (now : Z) (i : input) (s : State)
    (user repo : string) (ref : option string) :
  is_Some (lookupManifest (manifests s) user repo ref) →
  is_Some (lookupManifest (manifests (step now i s).1) user repo ref)
  ∧ match i with
    | Response _ _ _ => True
    | _ => manifests (step now i s).1 = manifests s
    end.
Proof.
  intros Hsome. destruct i as [u r rf tok cb|id er body|d|l k v]; simpl;
    try (split; done).
  - assert (manifests (getManifest now u r rf tok cb s).1 = manifests s) as E.
    { unfold getManifest. destruct (servable _ _); simpl; [done|].
      by destruct (batch.exists_ _ _). }
    rewrite E. done.
  - split; [|done].
    destruct (takeRequest id (inflight s)) as [[rq rest]|]; [|done].
    destruct (onResponse_state now rq er body (withInflight s rest))
      as (_ & _ & _ & _ & [Hm|[d Hm]]); rewrite Hm; simpl; [done|].
    destruct (decide ((rq_user rq, rq_repo rq, refKey (rq_ref rq))
                      = (user, repo, refKey ref))) as [[= <- <- Hk]|Hne].
    + rewrite lookup_store_key by done. by eexists.
    + by rewrite lookup_store_ne.
Qed.




(** Every cached entry's data is a document on the heap. *)
Definition entriesOnHeap (s : State) : Prop :=
  ∀ user repo ref m,
    lookupManifest (manifests s) user repo ref = Some m →
    (data m < length (heap s))%nat.

Lemma onResponse_heap (now : Z) (rq : Request) (er : option string)
    (body : string) (s : State) :
  let s' := (onResponse now rq er body s).1 in
  (manifests s' = manifests s ∧ (length (heap s) ≤ length (heap s'))%nat)
  ∨ (manifests s'
     = storeManifest (manifests s) (rq_user rq) (rq_repo rq) (rq_ref rq)
                     (mkManifest (length (heap s)) false (now + TTL s))
     ∧ length (heap s') = S (length (heap s))).
Proof.
  unfold onResponse, onGetRepo.
  destruct er as [e|]; [rewrite callBatch_deliver; simpl; left; split; [done|lia]|].
  assert (∀ d, let s' := (callBatch s (rq_batchKey rq) (deliverCopy d)).1 in
               manifests s' = manifests s
               ∧ (length (heap s) ≤ length (heap s'))%nat) as Hcopy.
  { intros d. rewrite callBatch_deliverCopy. simpl. split; [done|].
    rewrite length_app. lia. }
  destruct (rq_manifest rq) as [m|].
  - destruct (isFresh now m); [left; apply Hcopy|].
    destruct (truthy (parseManifest body)); simpl; rewrite callBatch_deliver; simpl.
    + right. split; [done|]. rewrite length_mutate, length_app. simpl. lia.
    + left. split; [done|lia].
  - destruct (truthy (parseManifest body)); simpl; rewrite callBatch_deliver; simpl.
    + right. split; [done|]. rewrite length_mutate, length_app. simpl. lia.
    + left. split; [done|lia].
Qed.

Lemma entriesOnHeap_step (now : Z) (i : input) (s : State) :
  entriesOnHeap s → entriesOnHeap (step now i s).1.
Proof.
  intros Hon. destruct i as [u r rf tok cb|id er body|d|l k v]; simpl.
  - unfold getManifest. destruct (servable _ _) as [hit|]; simpl.
    + intros user repo ref m Hm. unfold withHeap in *. simpl in *.
      rewrite length_app. simpl. specialize (Hon _ _ _ _ Hm). lia.
    + destruct (batch.exists_ _ _); simpl; exact Hon.
  - destruct (takeRequest id (inflight s)) as [[rq rest]|]; [|exact Hon].
    intros user repo ref m Hm.
    destruct (onResponse_heap now rq er body (withInflight s rest))
      as [[Hms Hlen]|[Hms Hlen]]; rewrite Hms in Hm; simpl in *.
    + specialize (Hon _ _ _ _ Hm). lia.
    + rewrite Hlen. apply lookup_store_inv in Hm as [->|Hm]; simpl; [lia|].
      specialize (Hon _ _ _ _ Hm). lia.
  - exact Hon.
  - intros user repo ref m Hm. simpl in *. rewrite length_mutate. by eapply Hon.
Qed.

Lemma reachable_entriesOnHeap (t : Z) (s : State) :
  reachable t s → entriesOnHeap s.
Proof.
  induction 1 as [t|t t' i s _ IH _].
  - intros user repo ref m. unfold lookupManifest. simpl. by rewrite lookup_empty.
  - by apply entriesOnHeap_step.
Qed.

(** X11: the copy handed out on a cache hit is the caller's own.  The
    address the callback receives is that of a new document, not of the
    cached one, and a write to it by the caller leaves the cached document
    and every other document that was on the heap as it was. *)
Theorem cache_hit_copy_is_independent (t now : Z) (s : State) (user repo : string)
    (ref authToken : option string) (cb : callback) (m : Manifest)
    (k : string) (v : json) :
  reachable t s →
  ownNamesOnly (manifests s) →
  ownName user = true → ownName repo = true → ownName (slotOf ref) = true →
  lookupManifest (manifests s) user repo (normRef ref) = Some m →
  private m = false → now < expires m →
  let r := getManifest now user repo ref authToken cb s in
  let copy := length (heap s) in
  let written := mutate (heap r.1) copy k v in
  r.2 = [Call cb (Success copy)]
  ∧ (data m < copy)%nat
  ∧ length (heap r.1) = S copy
  ∧ (∀ l, (l < copy)%nat → deref written l = deref (heap s) l)
  ∧ deref written (data m) = deref (heap s) (data m)
  ∧ manifests r.1 = manifests s.
Proof.
  intros Hr _ _ _ _ Hm Hp Hnow r copy written.
  pose proof (reachable_entriesOnHeap t s Hr _ _ _ _ Hm) as Hvalid.
  assert (servable now (lookupManifest (manifests s) user repo (normRef ref))
          = Some m) as Hs by (by apply servable_Some).
  subst written r copy. unfold getManifest. rewrite Hs.
  unfold deepCopy, alloc. simpl.
  split; [done|]. split; [lia|]. split; [rewrite length_app; simpl; lia|].
  split; [|split; [|done]].
  - intros l Hl. by apply deref_mutate_old.
  - by apply deref_mutate_old.
Qed.

End Service.

Arguments Call {diff} cb o.
Arguments Emit {diff} e.
Arguments Fetch {diff} id url.
Arguments retrieve {diff} manifest user repo priv.
Arguments change {diff} name differences manifest user repo priv.
Arguments step JSON_parse {diff} depDiff stash now i s.
Arguments run JSON_parse {diff} depDiff stash turns s.
Arguments onResponse JSON_parse {diff} depDiff now rq er body s.
Arguments reachable JSON_parse {diff} depDiff stash _ _.
Arguments publicAction {diff} a.

(** ** Worked examples *)




(** C8, the claim as stated fails: both manifests are [{}], no section is in
    either, and the differ is applied to (undefined, undefined) four times,
    not to two empty mappings. *)
Lemma differ_receives_undefined :
  (run sampleParse probeDiff sampleStash
       [(0, GetManifest "u" "r" None None 1%nat);
        (1, Response 0 None "{}");
        (3600002, GetManifest "u" "r" None None 2%nat);
        (3600003, Response 1 None "{}")] initial).2
  = [Fetch 0 (requestUrl sampleStash "u" "r" None);
     Call 1%nat (Success 0%nat);
     Emit (retrieve 0%nat "u" "r" false);
     Fetch 1 (requestUrl sampleStash "u" "r" None);
     Call 2%nat (Success 1%nat);
     Emit (change "dependenciesChange" [(None, None)] 1%nat "u" "r" false);
     Emit (change "devDependenciesChange" [(None, None)] 1%nat "u" "r" false);
     Emit (change "peerDependenciesChange" [(None, None)] 1%nat "u" "r" false);
     Emit (change "optionalDependenciesChange" [(None, None)] 1%nat "u" "r" false)]
  ∧ diffArgs [JObj []; JObj []] (Some (mkManifest 0 false 10)) 1 "dependencies"
    ≠ (Some (JObj []), Some (JObj [])).
Proof. split; [vm_compute; reflexivity|discriminate]. Qed.

Lemma differ_arguments_witness :
  let s := mkState (storeManifest ∅ "u" "r" None (mkManifest 0 false 10))
                   {[ "u-r-" := [2%nat] ]} [JObj [("ref", JNull)]] 3600000 [] 1 in
  let rq := mkRequest 0 (requestUrl sampleStash "u" "r" None) "u" "r" None "u-r-"
                      (Some (mkManifest 0 false 10)) in
  (onResponse sampleParse probeDiff 20 rq None "{}" s).2
  = [Call 2%nat (Success 1%nat);
     Emit (change "dependenciesChange" [(None, None)] 1%nat "u" "r" false);
     Emit (change "devDependenciesChange" [(None, None)] 1%nat "u" "r" false);
     Emit (change "peerDependenciesChange" [(None, None)] 1%nat "u" "r" false);
     Emit (change "optionalDependenciesChange" [(None, None)] 1%nat "u" "r" false)].
Proof.
  intros s rq.
  pose proof (differ_arguments sampleParse _ probeDiff 20 rq "{}" s
                (mkManifest 0 false 10)) as H.
  destruct H as [_ H].
  - reflexivity.
  - simpl. lia.
  - reflexivity.
  - simpl. lia.
  - rewrite H. reflexivity.
Defined.

(** C3, the fan-out of a fresh fetch hands out the cached object itself: two
    callers wait for one request; both are called with address 0, which is
    also the data of the entry that was just cached.  When the first caller
    then writes a property to what it was handed, the cached document has the
    property, and so has the copy a later caller is served from the cache. *)
Theorem fresh_fetch_shares_cached_object :
  let r := run sampleParse probeDiff sampleStash
             [(0, GetManifest "u" "r" None None 1);
              (1, GetManifest "u" "r" None None 2);
              (2, Response 0 None "{}")] initial in
  let changed := step sampleParse probeDiff sampleStash 3
                   (Mutate 0 "name" (JStr "changed")) r.1 in
  let later := step sampleParse probeDiff sampleStash 4
                 (GetManifest "u" "r" None None 3) changed.1 in
  r.2 = [Fetch 0 (requestUrl sampleStash "u" "r" None);
         Call 1 (Success 0); Call 2 (Success 0);
         Emit (retrieve 0 "u" "r" false)]
  ∧ data <$> lookupManifest (manifests r.1) "u" "r" None = Some 0%nat
  ∧ deref (heap r.1) 0 = JObj [("ref", JNull)]
  ∧ deref (heap changed.1) 0 = JObj [("ref", JNull); ("name", JStr "changed")]
  ∧ later.2 = [Call 3 (Success 1)]
  ∧ deref (heap later.1) 1 = JObj [("ref", JNull); ("name", JStr "changed")].
Proof. repeat split; vm_compute; reflexivity. Qed.

(** C4, [retrieve] is raised for a slot that already holds an entry: two
    callers with different tokens ask for the same manifest before either
    request completes, so each is the leader of a request of its own and each
    request remembers that the slot was empty.  The first completion fills
    the slot and raises [retrieve]; the second replaces the entry and raises
    [retrieve] again, where no [retrieve] is due. *)
Theorem retrieve_raised_twice :
  let r := run sampleParse probeDiff sampleStash
             [(0, GetManifest "u" "r" None (Some "t1") 1);
              (1, GetManifest "u" "r" None (Some "t2") 2);
              (2, Response 0 None "{}")] initial in
  let second := step sampleParse probeDiff sampleStash 3 (Response 1 None "{}") r.1 in
  r.2 = [Fetch 0 (requestUrl sampleStash "u" "r" None);
         Fetch 1 (requestUrl sampleStash "u" "r" None);
         Call 1 (Success 0);
         Emit (retrieve 0 "u" "r" false)]
  ∧ lookupManifest (manifests r.1) "u" "r" None = Some (mkManifest 0 false 3600002)
  ∧ second.2 = [Call 2 (Success 1); Emit (retrieve 1 "u" "r" false)]
  ∧ lookupManifest (manifests second.1) "u" "r" None
    = Some (mkManifest 1 false 3600003).
Proof. repeat split; vm_compute; reflexivity. Qed.

Lemma entries_are_public_witness :
  let turns := [(0, GetManifest "u" "r" None None 1); (1, Response 0 None "{}")] in
  let s := (run sampleParse probeDiff sampleStash turns initial).1 in
  lookupManifest (manifests s) "u" "r" None = Some (mkManifest 0 false 3600001)
  ∧ allPublic s
  ∧ ∀ t' i, Forall publicAction (step sampleParse probeDiff sampleStash t' i s).2.
Proof.
  intros turns s. split; [vm_compute; reflexivity|].
  apply (entries_are_public sampleParse _ probeDiff sampleStash (endTime 0 turns) s).
  apply (reachable_run sampleParse _ probeDiff sampleStash 0 1 turns initial).
  - apply reach_initial.
  - simpl. lia.
Defined.


Lemma fresh_captured_entry_witness :
  let m := mkManifest 0 true 100 in
  let s := mkState (storeManifest ∅ "u" "r" None m) {[ "u-r-" := [1; 2]%nat ]}
                   [JObj [("ref", JNull)]] 3600000 [] 1 in
  let rq := mkRequest 0 (requestUrl sampleStash "u" "r" None) "u" "r" None "u-r-"
                      (Some m) in
  let r := onResponse sampleParse probeDiff 50 rq None "[]" s in
  r.2 = [Call 1 (Success 1); Call 2 (Success 2)]
  ∧ heap r.1 = [JObj [("ref", JNull)]; JObj [("ref", JNull)]; JObj [("ref", JNull)]]
  ∧ manifests r.1 = manifests s.
Proof.
  intros m s rq r.
  pose proof (fresh_captured_entry sampleParse _ probeDiff 50 rq "[]" s m) as H.
  destruct H as (Hout & Hheap & _ & Hcache & _).
  - reflexivity.
  - simpl. lia.
  - split; [|split; [|exact Hcache]].
    + subst r. rewrite Hout. reflexivity.
    + subst r. rewrite Hheap. reflexivity.
Defined.


(** ** Worked examples for the further properties *)

(** The double quote, and the body
    [{"ref":"old","dependencies":{"a":"^1.0.0"}}] with the document it is
    JSON for. *)
Definition dq : string :=
  String (Ascii.Ascii false true false false false true false false) EmptyString.

Definition sampleBody : string :=
  "{" +:+ dq +:+ "ref" +:+ dq +:+ ":" +:+ dq +:+ "old" +:+ dq +:+ ","
      +:+ dq +:+ "dependencies" +:+ dq +:+ ":{"
      +:+ dq +:+ "a" +:+ dq +:+ ":" +:+ dq +:+ "^1.0.0" +:+ dq +:+ "}}".

Definition sampleFields : list (string * json) :=
  [("ref", JStr "old"); ("dependencies", JObj [("a", JStr "^1.0.0")])].

(** [sampleParse], knowing [sampleBody] as well. *)
Definition manifestParse (body : string) : option json :=
  if String.eqb body sampleBody then Some (JObj sampleFields) else sampleParse body.

Lemma refresh_stores_the_body_witness :
  let s := (run manifestParse probeDiff sampleStash
                [(0, GetManifest "u" "r" (Some "dev") None 1);
                 (1, GetManifest "u" "r" None None 2)] initial).1 in
  let r := step manifestParse probeDiff sampleStash 2 (Response 0 None sampleBody) s in
  lookupManifest (manifests r.1) "u" "r" (Some "dev") = Some (mkManifest 0 false 3600002)
  ∧ deref (heap r.1) 0
    = JObj [("ref", JStr "dev"); ("dependencies", JObj [("a", JStr "^1.0.0")])]
  ∧ r.2 = [Call 1 (Success 0); Call 2 (Success 0); Emit (retrieve 0 "u" "r" false)]
  ∧ lookupManifest (manifests r.1) "u" "r" None = None.
Proof.
  intros s r.
  pose proof (refresh_stores_the_body manifestParse _ probeDiff sampleStash 1 2 s 0
                (mkRequest 0 (requestUrl sampleStash "u" "r" (Some "dev")) "u" "r"
                           (Some "dev") "u-r-" None)
                [] sampleBody sampleFields) as H.
  destruct H as (_ & Hdoc & _ & Hother & _).
  - apply (reachable_run manifestParse _ probeDiff sampleStash 0 1
             [(0, GetManifest "u" "r" (Some "dev") None 1);
              (1, GetManifest "u" "r" None None 2)] initial).
    + apply reach_initial.
    + simpl. lia.
  - simpl. lia.
  - vm_compute. reflexivity.
  - vm_compute. reflexivity.
  - apply ownNamesOnly_empty.
  - reflexivity.
  - reflexivity.
  - reflexivity.
  - split; [vm_compute; reflexivity|]. split; [exact Hdoc|].
    split; [vm_compute; reflexivity|].
    etransitivity; [apply (Hother "u" "r" None); try reflexivity; discriminate|].
    reflexivity.
Defined.


Lemma ttl_window_witness :
  let s := (run sampleParse probeDiff sampleStash
                [(0, GetManifest "u" "r" None None 1)] initial).1 in
  let s1 := (step sampleParse probeDiff sampleStash 1 (Response 0 None "{}") s).1 in
  (getManifest (option json * option json) sampleStash 10 "u" "r" None None 2 s1).2
  = [Call 2 (Success 1)]
  ∧ (getManifest (option json * option json) sampleStash 3600001
                 "u" "r" None None 2 s1).2
    = [Fetch 1 (requestUrl sampleStash "u" "r" None)].
Proof.
  intros s s1.
  pose proof (ttl_window sampleParse _ probeDiff sampleStash 0 1 s 0
                (mkRequest 0 (requestUrl sampleStash "u" "r" None) "u" "r" None
                           "u-r-" None)
                [] "{}" (JObj [])) as H.
  assert (reachable sampleParse probeDiff sampleStash 0 s) as Hr.
  { apply (reachable_run sampleParse _ probeDiff sampleStash 0 0
             [(0, GetManifest "u" "r" None None 1)] initial).
    - apply reach_initial.
    - simpl. lia. }
  assert (TTL s = 3600000) as Httl by (vm_compute; reflexivity).
  assert (validDate (1 + TTL s)) as Hdate.
  { rewrite Httl. unfold validDate, maxDate. lia. }
  split.
  - destruct (H 10 None None 2%nat Hr) as [Hin _].
    + lia.
    + vm_compute. reflexivity.
    + reflexivity.
    + reflexivity.
    + reflexivity.
    + apply ownNamesOnly_empty.
    + reflexivity.
    + reflexivity.
    + reflexivity.
    + exact Hdate.
    + destruct Hin as (Hout & _); [|exact Hout]. rewrite Httl. lia.
  - destruct (H 3600001 None None 2%nat Hr) as [_ Hout].
    + lia.
    + vm_compute. reflexivity.
    + reflexivity.
    + reflexivity.
    + reflexivity.
    + apply ownNamesOnly_empty.
    + reflexivity.
    + reflexivity.
    + reflexivity.
    + exact Hdate.
    + destruct Hout as (_ & _ & Hout); [rewrite Httl; lia|].
      vm_compute in Hout. destruct Hout as [Hout _]. exact Hout.
Defined.

Lemma refs_share_a_fetch_witness :
  let r1 := run sampleParse probeDiff sampleStash
                [(1, GetManifest "u" "r" None None 1);
                 (2, GetManifest "u" "r" (Some "dev") None 2)] initial in
  let r2 := step sampleParse probeDiff sampleStash 3 (Response 0 None "{}") r1.1 in
  r1.2 = [Fetch 0 (requestUrl sampleStash "u" "r" None)]
  ∧ r2.2 = [Call 1 (Success 0); Call 2 (Success 0); Emit (retrieve 0 "u" "r" false)]
  ∧ lookupManifest (manifests r2.1) "u" "r" (Some "dev") = None.
Proof.
  intros r1 r2.
  pose proof (refs_share_a_fetch sampleParse _ probeDiff sampleStash 0 initial
                "u" "r" None None (Some "dev") 1%nat 2%nat 1 2 3 None "{}") as H.
  destruct H as (Hfetch & _ & Hslot).
  - apply reach_initial.
  - lia.
  - lia.
  - lia.
  - apply ownNamesOnly_empty.
  - reflexivity.
  - reflexivity.
  - reflexivity.
  - reflexivity.
  - reflexivity.
  - discriminate.
  - reflexivity.
  - reflexivity.
  - split; [exact Hfetch|]. split; [vm_compute; reflexivity|].
    etransitivity; [exact Hslot|]. reflexivity.
Defined.

Lemma entries_never_removed_witness :
  let s := (run sampleParse probeDiff sampleStash
                [(0, GetManifest "u" "r" None None 1);
                 (1, Response 0 None "{}");
                 (3600002, GetManifest "u" "r" None None 2)] initial).1 in
  is_Some (lookupManifest
             (manifests (step sampleParse probeDiff sampleStash 3600003
                              (Response 1 (Some "ECONNRESET") EmptyString) s).1)
             "u" "r" None).
Proof.
  intros s.
  apply (entries_never_removed sampleParse _ probeDiff sampleStash 3600003
           (Response 1 (Some "ECONNRESET") EmptyString) s "u" "r" None).
  vm_compute. eexists. reflexivity.
Defined.




Lemma cache_hit_copy_is_independent_witness :
  let s := (run sampleParse probeDiff sampleStash
                [(0, GetManifest "u" "r" None None 1);
                 (1, Response 0 None "{}")] initial).1 in
  let r := getManifest (option json * option json) sampleStash 2 "u" "r" None None 2 s in
  let written := mutate (heap r.1) 1 "name" (JStr "changed") in
  r.2 = [Call 2 (Success 1)]
  ∧ deref written 0 = JObj [("ref", JNull)]
  ∧ getProp (deref written 1) "name" = Some (JStr "changed").
Proof.
  intros s r written.
  assert (manifests s = storeManifest ∅ "u" "r" None (mkManifest 0 false 3600001))
    as Hms by (vm_compute; reflexivity).
  pose proof (cache_hit_copy_is_independent sampleParse _ probeDiff sampleStash
                1 2 s "u" "r" None None 2%nat (mkManifest 0 false 3600001)
                "name" (JStr "changed")) as H.
  destruct H as (Hout & _ & _ & _ & Hcached & _).
  - apply (reachable_run sampleParse _ probeDiff sampleStash 0 1
             [(0, GetManifest "u" "r" None None 1);
              (1, Response 0 None "{}")] initial).
    + apply reach_initial.
    + simpl. lia.
  - rewrite Hms. apply ownNamesOnly_store; [apply ownNamesOnly_empty|..]; reflexivity.
  - reflexivity.
  - reflexivity.
  - reflexivity.
  - vm_compute. reflexivity.
  - reflexivity.
  - simpl. lia.
  - split; [exact Hout|]. split.
    + etransitivity; [exact Hcached|]. vm_compute. reflexivity.
    + vm_compute. reflexivity.
Defined.
